(** * Verification of the image combiner (src/main.rs)

    Shallow embedding of the Rust program that reads two images, brings
    them to a common size and interleaves their RGBA pixels.

    Conventions of the embedding:
    - [u8] is [Byte.byte], [Vec<u8>] contents are [list byte], [usize]
      indices are [nat] (no index computed here comes near [usize::MAX]);
    - [u32] values are [Z] in [0, 2^32); arithmetic on them follows a
      debug build (the default of [cargo run]): an overflowing [*] panics;
    - a panic is [None] in [option]; a [Result] is [result]. *)

From Stdlib Require Import String.
From Stdlib Require Import List Arith Lia ZArith Bool.
Definition byte := Byte.byte.
Import ListNotations.

Inductive result (A E : Type) : Type :=
| Ok (a : A)
| Err (e : E).
Arguments Ok {A E} a.
Arguments Err {A E} e.

(** ** [set_rgba] and [Vec::splice] *)

(** The body of [for i in start..=end { match vec.get(i) ... rgba.push(val) }]:
    runs over the indices [idx] in order; [vec.get(i) = None] panics. *)
Fixpoint set_rgba_loop (vec : list byte) (idx : list nat) (rgba : list byte)
  : option (list byte) :=
  match idx with
  | [] => Some rgba
  | i :: idx' =>
      match nth_error vec i with
      | Some d => set_rgba_loop vec idx' (rgba ++ [d])
      | None => None (* panic!("index out of bounds") *)
      end
  end.

(** [fn set_rgba(vec, start, end)]: [start..=end] holds [end + 1 - start]
    indices (none when [end < start]); [rgba] starts as [Vec::new()]. *)
Definition set_rgba (vec : list byte) (start end_ : nat) : option (list byte) :=
  set_rgba_loop vec (seq start (S end_ - start)) [].

(** [v.splice(start..=end_, rep)]: panics unless [start <= end_ + 1 <= v.len()];
    otherwise replaces [v[start..=end_]] by [rep]. *)
Definition splice (v : list byte) (start end_ : nat) (rep : list byte)
  : option (list byte) :=
  if (start <=? S end_) && (S end_ <=? length v)
  then Some (firstn start v ++ rep ++ skipn (S end_) v)
  else None.

(** ** [alternate_pixels] *)

Section AlternatePixels.
Variables vec_1 vec_2 : list byte.

(** The [while i < vec_1.len()] loop of [alternate_pixels], with the
    mutable [i] and [combined_data] passed explicitly. [fuel] bounds the
    number of iterations; [alternate_pixels] gives [vec_1.len()] of it,
    more than the loop runs (it adds 4 to [i] each time). *)
Fixpoint alternate_loop (fuel : nat) (i : nat) (combined_data : list byte)
  : option (list byte) :=
  match fuel with
  | O => Some combined_data
  | S fuel' =>
      if i <? length vec_1 then
        let src := if i mod 8 =? 0 then vec_1 else vec_2 in
        match set_rgba src i (i + 3) with
        | None => None
        | Some rgba =>
            match splice combined_data i (i + 3) rgba with
            | None => None
            | Some combined_data' => alternate_loop fuel' (i + 4) combined_data'
            end
        end
      else Some combined_data
  end.

(** [fn alternate_pixels(vec_1, vec_2)]: [combined_data = vec![0u8; vec_1.len()]],
    [i = 0], then the loop. *)
Definition alternate_pixels : option (list byte) :=
  alternate_loop (length vec_1) 0 (repeat Byte.x00 (length vec_1)).

(** Reference reading of the output: the 4-byte block at offset [j] comes
    from [vec_1] when [j mod 8 = 0] and from [vec_2] otherwise. *)
Definition pixel_source (j : nat) : list byte :=
  if j mod 8 =? 0 then vec_1 else vec_2.

Definition block (j : nat) : list byte := firstn 4 (skipn j (pixel_source j)).

Fixpoint blocks (k : nat) (j : nat) : list byte :=
  match k with
  | O => []
  | S k' => block j ++ blocks k' (j + 4)
  end.

End AlternatePixels.

(** ** u32 arithmetic *)

Open Scope Z_scope.

Definition u32_max : Z := 2 ^ 32 - 1.

(** [a * b] on [u32] in a debug build: panics on overflow. *)
Definition mul_u32 (a b : Z) : option Z :=
  if a * b <=? u32_max then Some (a * b) else None.

(** Width of [usize] on the target (x86_64). *)
Definition usize_bits : Z := 64.

(** [u32::try_into::<usize>()]: fails when the value does not fit. *)
Definition u32_try_into_usize (x : Z) : option nat :=
  if x <? 2 ^ usize_bits then Some (Z.to_nat x) else None.

(** ** Images of the [image] crate *)

Inductive FilterType := Nearest | Triangle | CatmullRom | Gaussian | Lanczos3.

(** A [DynamicImage]: one decoded from a file, or the result of
    [img.resize_exact(w, h, filter)]. The resampling itself belongs to the
    [image] crate and is kept symbolic; its contract, that the result is
    exactly [w] by [h], is what [dimensions] returns for it. *)
Inductive DynamicImage :=
| Decoded (width height : Z) (pixels : list byte)
| ResizeExact (src : DynamicImage) (width height : Z) (filter : FilterType).

Definition dimensions (img : DynamicImage) : Z * Z :=
  match img with
  | Decoded w h _ => (w, h)
  | ResizeExact _ w h _ => (w, h)
  end.

Definition img_width (img : DynamicImage) : Z := fst (dimensions img).
Definition img_height (img : DynamicImage) : Z := snd (dimensions img).

Definition dims_eqb (d1 d2 : Z * Z) : bool :=
  (fst d1 =? fst d2) && (snd d1 =? snd d2).

(** Number of pixels of a [(width, height)] pair, in [Z]. *)
Definition pixel_count (d : Z * Z) : Z := fst d * snd d.

(** ** [get_smallest_dimensions] and [standardize_size] *)

Definition get_smallest_dimensions (dim_1 dim_2 : Z * Z) : option (Z * Z) :=
  match mul_u32 (fst dim_1) (snd dim_1) with
  | None => None
  | Some pix_1 =>
      match mul_u32 (fst dim_2) (snd dim_2) with
      | None => None
      | Some pix_2 => Some (if pix_1 <? pix_2 then dim_1 else dim_2)
      end
  end.

(** The [println!] of the source writes to stdout only and is left out. *)
Definition standardize_size (image_1 image_2 : DynamicImage)
  : option (DynamicImage * DynamicImage) :=
  match get_smallest_dimensions (dimensions image_1) (dimensions image_2) with
  | None => None
  | Some (width, height) =>
      if dims_eqb (dimensions image_2) (width, height)
      then Some (ResizeExact image_1 width height Triangle, image_2)
      else Some (image_1, ResizeExact image_2 width height Triangle)
  end.

(** ** [FloatingImage] *)

(** A [Vec<u8>]: its elements and its capacity. *)
Record Vec := mkVec { vec_items : list byte; vec_capacity : nat }.

(** [Vec::with_capacity(n)]: empty; for [u8] the allocation holds exactly
    [n] bytes. *)
Definition vec_with_capacity (n : nat) : Vec := mkVec [] n.

Inductive ImageFormat := Png | Jpeg | Gif | WebP | Pnm | Tiff | Tga | Bmp | Ico.

Definition ImageFormat_eqb (a b : ImageFormat) : bool :=
  match a, b with
  | Png, Png | Jpeg, Jpeg | Gif, Gif | WebP, WebP | Pnm, Pnm | Tiff, Tiff
  | Tga, Tga | Bmp, Bmp | Ico, Ico => true
  | _, _ => false
  end.

(** Payloads of [std::io::Error] and [image::ImageError]. *)
Record IoError := mkIoError { io_error_msg : String.string }.
Record ImageError := mkImageError { image_error_msg : String.string }.

Inductive ImageDataErrors :=
| DifferentImageFormats
| BufferTooSmall
| UnableToReadImageFromPath (e : IoError)
| UnableToFormatImage (path : String.string)
| UnableToDecodeImage (e : ImageError)
| UnableToSaveImage (e : ImageError).

Record FloatingImage := mkFloatingImage {
  fi_width : Z;
  fi_height : Z;
  fi_data : Vec;
  fi_name : String.string
}.

(** [FloatingImage::new]: [height * width * 4] in [u32], then
    [try_into().unwrap()] to [usize]. *)
Definition FloatingImage_new (width height : Z) (name : String.string)
  : option FloatingImage :=
  match mul_u32 height width with
  | None => None
  | Some hw =>
      match mul_u32 hw 4 with
      | None => None
      | Some buffer_capacity =>
          match u32_try_into_usize buffer_capacity with
          | None => None
          | Some cap =>
              Some (mkFloatingImage width height (vec_with_capacity cap) name)
          end
      end
  end.

(** [fn set_data(&mut self, data)]: the new state of [self] and the result. *)
Definition set_data (self : FloatingImage) (data : Vec)
  : FloatingImage * result unit ImageDataErrors :=
  if (vec_capacity (fi_data self) <? length (vec_items data))%nat
  then (self, Err BufferTooSmall)
  else (mkFloatingImage (fi_width self) (fi_height self) data (fi_name self),
        Ok tt).

(** ** [combine_images] and [main] *)

(** What a run of [main] does, step by step, as observed in its trace. *)
Inductive Event :=
| EvLoad (path : String.string)
| EvStandardize
| EvNewBuffer
| EvCombine
| EvSetData
| EvSave.

(** How a computation ends: a value, an [Err] returned through [?], or a panic. *)
Inductive Outcome (A : Type) :=
| Done (a : A)
| Fail (e : ImageDataErrors)
| Panic.
Arguments Done {A} a.
Arguments Fail {A} e.
Arguments Panic {A}.

(** Error monad with a trace of the steps taken. *)
Definition M (A : Type) : Type := list Event -> list Event * Outcome A.

Definition ret {A} (a : A) : M A := fun tr => (tr, Done a).
Definition bind {A B} (m : M A) (k : A -> M B) : M B :=
  fun tr =>
    match m tr with
    | (tr', Done a) => k a tr'
    | (tr', Fail e) => (tr', Fail e)
    | (tr', Panic) => (tr', Panic)
    end.
Definition emit (ev : Event) : M unit := fun tr => (tr ++ [ev], Done tt).
Definition throw {A} (e : ImageDataErrors) : M A := fun tr => (tr, Fail e).
(** The [?] operator. *)
Definition try_ {A} (r : result A ImageDataErrors) : M A :=
  match r with Ok a => ret a | Err e => throw e end.
(** A call that panics when it has no value. *)
Definition or_panic {A} (o : option A) : M A :=
  fun tr => match o with Some a => (tr, Done a) | None => (tr, Panic) end.

Notation "x <- m ;; k" := (bind m (fun x => k))
  (at level 61, m at next level, right associativity).
Notation "m ;;; k" := (bind m (fun _ => k)) (at level 61, right associativity).

Record Args := mkArgs {
  arg_image_1 : String.string;
  arg_image_2 : String.string;
  arg_output : String.string
}.

Inductive ColorType := L8 | La8 | Rgb8 | Rgba8.

Section Main.
(** The [image] crate's reader, pixel conversion and encoder. *)
Context {Reader : Type}.
Variable Reader_open : String.string -> result Reader IoError.
Variable reader_format : Reader -> option ImageFormat.
Variable reader_decode : Reader -> result DynamicImage ImageError.
Variable to_rgba8_into_vec : DynamicImage -> list byte.
Variable save_buffer_with_format :
  String.string -> list byte -> Z -> Z -> ColorType -> ImageFormat ->
  result unit ImageError.

Definition find_image_from_path (path : String.string)
  : result (DynamicImage * ImageFormat) ImageDataErrors :=
  match Reader_open path with
  | Ok image_reader =>
      match reader_format image_reader with
      | Some image_format =>
          match reader_decode image_reader with
          | Ok image => Ok (image, image_format)
          | Err e => Err (UnableToDecodeImage e)
          end
      | None => Err (UnableToFormatImage path)
      end
  | Err e => Err (UnableToReadImageFromPath e)
  end.

Definition combine_images (image_1 image_2 : DynamicImage) : option (list byte) :=
  alternate_pixels (to_rgba8_into_vec image_1) (to_rgba8_into_vec image_2).

Definition main (args : Args) : M unit :=
  emit (EvLoad (arg_image_1 args)) ;;;
  r1 <- try_ (find_image_from_path (arg_image_1 args)) ;;
  emit (EvLoad (arg_image_2 args)) ;;;
  r2 <- try_ (find_image_from_path (arg_image_2 args)) ;;
  let '(image_1, image_format_1) := r1 in
  let '(image_2, image_format_2) := r2 in
  if negb (ImageFormat_eqb image_format_1 image_format_2)
  then throw DifferentImageFormats
  else
  emit EvStandardize ;;;
  std <- or_panic (standardize_size image_1 image_2) ;;
  let '(image_1, image_2) := std in
  emit EvNewBuffer ;;;
  output <- or_panic (FloatingImage_new (img_width image_1) (img_height image_1)
                        (arg_output args)) ;;
  emit EvCombine ;;;
  combined_data <- or_panic (combine_images image_1 image_2) ;;
  emit EvSetData ;;;
  let '(output, r) :=
    set_data output (mkVec combined_data (length combined_data)) in
  try_ r ;;;
  emit EvSave ;;;
  match save_buffer_with_format (fi_name output) (vec_items (fi_data output))
          (fi_width output) (fi_height output) Rgba8 image_format_1 with
  | Err e => throw (UnableToSaveImage e)
  | Ok _ => ret tt
  end.

End Main.

(** ** A concrete environment for [main]: a reader keyed by path, used to
    run the pipeline on example inputs. *)

Definition example_open (p : string) : result string IoError := Ok p.
Definition example_format (p : string) : option ImageFormat :=
  if String.eqb p "a.png" then Some Png else Some Jpeg.
Definition example_decode (_ : string) : result DynamicImage ImageError :=
  Ok (Decoded 1 1 [Byte.x00; Byte.x00; Byte.x00; Byte.xff]).
Definition example_save (_ : string) (_ : list byte) (_ _ : Z) (_ : ColorType)
  (_ : ImageFormat) : result unit ImageError := Ok tt.
Definition example_open_checked (p : string) : result string IoError :=
  if String.eqb p "missing.png" then Err (mkIoError "not found") else Ok p.
(** [to_rgba8().into_vec()] with the length the [image] crate gives it. *)
Definition example_to_rgba8 (img : DynamicImage) : list byte :=
  repeat Byte.x00 (Z.to_nat (img_width img * img_height img * 4)).
Definition example_decode_large (_ : string) : result DynamicImage ImageError :=
  Ok (Decoded 65536 16384 []).

Definition example_args : Args := mkArgs "a.png" "b.jpg" "out.png".


Close Scope Z_scope.

(** ** Lemmas on the list primitives *)

Lemma skipn_nth_error (vec : list byte) (s : nat) (d : byte) :
  nth_error vec s = Some d -> skipn s vec = d :: skipn (S s) vec.
Proof.
  revert s; induction vec as [|x vec IH]; intros [|s] H; simpl in *;
    try discriminate.
  - now injection H as ->.
  - now apply IH.
Qed.

Lemma skipn_app_length (l1 l2 : list byte) (n : nat) :
  skipn (length l1 + n) (l1 ++ l2) = skipn n l2.
Proof. induction l1 as [|x l1 IH]; simpl; auto. Qed.

Lemma firstn_app_exact (l1 l2 : list byte) (n : nat) :
  length l1 = n -> firstn n (l1 ++ l2) = l1.
Proof.
  intros <-. rewrite firstn_app, firstn_all, Nat.sub_diag.
  simpl. apply app_nil_r.
Qed.

Lemma set_rgba_loop_in_bounds (vec : list byte) (k : nat) :
  forall s acc, s + k <= length vec ->
  set_rgba_loop vec (seq s k) acc = Some (acc ++ firstn k (skipn s vec)).
Proof.
  induction k as [|k IH]; intros s acc Hb; simpl.
  - now rewrite app_nil_r.
  - destruct (nth_error vec s) as [d|] eqn:Hd.
    + rewrite IH by lia. rewrite (skipn_nth_error vec s d Hd).
      simpl. now rewrite <- app_assoc.
    + apply nth_error_None in Hd. lia.
Qed.

Lemma set_rgba_in_bounds (vec : list byte) (i : nat) :
  i + 4 <= length vec ->
  set_rgba vec i (i + 3) = Some (firstn 4 (skipn i vec)).
Proof.
  intros Hb. unfold set_rgba.
  replace (S (i + 3) - i) with 4 by lia.
  now rewrite set_rgba_loop_in_bounds.
Qed.

Lemma splice_in_bounds (v rep : list byte) (i : nat) :
  i + 4 <= length v ->
  splice v i (i + 3) rep = Some (firstn i v ++ rep ++ skipn (i + 4) v).
Proof.
  intros Hb. unfold splice.
  replace (S (i + 3)) with (i + 4) by lia.
  destruct (i <=? i + 4) eqn:E1; [|apply Nat.leb_gt in E1; lia].
  destruct (i + 4 <=? length v) eqn:E2; [|apply Nat.leb_gt in E2; lia].
  reflexivity.
Qed.

(** ** The loop computes the blocks *)

Section AlternateLoop.
Variables vec_1 vec_2 : list byte.
Variable K : nat.
Hypothesis len_1 : length vec_1 = 4 * K.
Hypothesis len_2 : 4 * K <= length vec_2.

Lemma pixel_source_length (j : nat) : 4 * K <= length (pixel_source vec_1 vec_2 j).
Proof. unfold pixel_source; destruct (j mod 8 =? 0); lia. Qed.

Lemma block_length (j : nat) : j + 4 <= 4 * K -> length (block vec_1 vec_2 j) = 4.
Proof.
  intros Hj. unfold block. rewrite length_firstn, length_skipn.
  pose proof (pixel_source_length j). lia.
Qed.

Lemma blocks_length (k : nat) :
  forall j, j + 4 * k <= 4 * K -> length (blocks vec_1 vec_2 k j) = 4 * k.
Proof.
  induction k as [|k IH]; intros j Hj; simpl; auto.
  rewrite length_app, block_length, IH; lia.
Qed.

Lemma blocks_skipn (m : nat) :
  forall k j, m <= k -> j + 4 * k <= 4 * K ->
  skipn (4 * m) (blocks vec_1 vec_2 k j) = blocks vec_1 vec_2 (k - m) (j + 4 * m).
Proof.
  induction m as [|m IH]; intros k j Hm Hk.
  - simpl. now rewrite Nat.sub_0_r, Nat.add_0_r.
  - destruct k as [|k]; [lia|]. simpl blocks.
    replace (4 * S m) with (length (block vec_1 vec_2 j) + 4 * m)
      by (rewrite block_length; lia).
    rewrite skipn_app_length, IH by lia.
    f_equal; lia.
Qed.

Lemma blocks_firstn (k j : nat) :
  j + 4 * S k <= 4 * K ->
  firstn 4 (blocks vec_1 vec_2 (S k) j) = block vec_1 vec_2 j.
Proof.
  intros Hj. simpl blocks.
  apply firstn_app_exact, block_length; lia.
Qed.

Lemma alternate_loop_S (fuel i : nat) (c : list byte) :
  alternate_loop vec_1 vec_2 (S fuel) i c =
  if i <? length vec_1 then
    match set_rgba (pixel_source vec_1 vec_2 i) i (i + 3) with
    | None => None
    | Some rgba =>
        match splice c i (i + 3) rgba with
        | None => None
        | Some c' => alternate_loop vec_1 vec_2 fuel (i + 4) c'
        end
    end
  else Some c.
Proof. reflexivity. Qed.

Lemma alternate_loop_blocks (fuel : nat) :
  forall m c, length c = 4 * K -> m <= K -> K - m <= fuel ->
  alternate_loop vec_1 vec_2 fuel (4 * m) c
  = Some (firstn (4 * m) c ++ blocks vec_1 vec_2 (K - m) (4 * m)).
Proof.
  induction fuel as [|fuel IH]; intros m c Hc Hm Hf.
  - simpl. replace (K - m) with 0 by lia. simpl.
    rewrite app_nil_r, firstn_all2; auto; lia.
  - rewrite alternate_loop_S.
    destruct (4 * m <? length vec_1) eqn:Hlt.
    + apply Nat.ltb_lt in Hlt.
      rewrite set_rgba_in_bounds
        by (pose proof (pixel_source_length (4 * m)); lia).
      rewrite splice_in_bounds by lia.
      replace (4 * m + 4) with (4 * S m) by lia.
      rewrite IH.
      * f_equal.
        replace (K - m) with (S (K - S m)) by lia. simpl blocks.
        fold (block vec_1 vec_2 (4 * m)).
        replace (4 * S m) with (length (firstn (4 * m) c) + 4) at 1
          by (rewrite length_firstn; lia).
        rewrite (firstn_app_2 4 (firstn (4 * m) c)).
        replace (firstn 4 (block vec_1 vec_2 (4 * m) ++ skipn (4 * S m) c))
          with (block vec_1 vec_2 (4 * m)).
        2:{ rewrite firstn_app_exact; auto. apply block_length; lia. }
        rewrite <- app_assoc. f_equal. f_equal; f_equal; lia.
      * rewrite !length_app, length_firstn, length_skipn.
        fold (block vec_1 vec_2 (4 * m)). rewrite block_length; lia.
      * lia.
      * lia.
    + apply Nat.ltb_ge in Hlt. replace (K - m) with 0 by lia. simpl.
      rewrite app_nil_r, firstn_all2; auto; lia.
Qed.

Lemma alternate_pixels_blocks :
  alternate_pixels vec_1 vec_2 = Some (blocks vec_1 vec_2 K 0).
Proof.
  unfold alternate_pixels. rewrite len_1.
  pose proof (alternate_loop_blocks (4 * K) 0 (repeat Byte.x00 (4 * K))) as H.
  rewrite Nat.mul_0_r, Nat.sub_0_r in H.
  rewrite H; [reflexivity | apply repeat_length | lia | lia].
Qed.

End AlternateLoop.

Lemma firstn_skipn_firstn (l : list byte) (n j : nat) :
  j + 4 <= n -> firstn 4 (skipn j (firstn n l)) = firstn 4 (skipn j l).
Proof.
  intros Hj. rewrite skipn_firstn_comm, firstn_firstn.
  f_equal. lia.
Qed.

Lemma block_prefix_only (v1 v2 v2' : list byte) (n j : nat) :
  j + 4 <= n -> firstn n v2' = firstn n v2 ->
  block v1 v2' j = block v1 v2 j.
Proof.
  intros Hj Hpre. unfold block, pixel_source.
  destruct (j mod 8 =? 0); auto.
  rewrite <- (firstn_skipn_firstn v2 n j), <- (firstn_skipn_firstn v2' n j), Hpre;
    auto.
Qed.

Lemma blocks_prefix_only (v1 v2 v2' : list byte) (n k : nat) :
  firstn n v2' = firstn n v2 ->
  forall j, j + 4 * k <= n -> blocks v1 v2' k j = blocks v1 v2 k j.
Proof.
  intros Hpre. induction k as [|k IH]; intros j Hj; simpl; auto.
  rewrite (block_prefix_only v1 v2 v2' n j), IH; auto; lia.
Qed.

(** ** Claims on [alternate_pixels] *)

(** C1: for equal-length inputs [s1], [s2] whose length is a multiple of 8,
    [alternate_pixels] returns an output of the same length whose 4 bytes at
    each offset [o] that is a multiple of 4 are [s1[o..o+4)] when
    [o mod 8 = 0] and [s2[o..o+4)] otherwise. *)
Theorem alternate_pixels_interleaves (s1 s2 : list byte) :
  length s1 = length s2 ->
  length s1 mod 8 = 0 ->
  exists out, alternate_pixels s1 s2 = Some out /\
    length out = length s1 /\
    forall o, o mod 4 = 0 -> o < length s1 ->
      firstn 4 (skipn o out)
      = firstn 4 (skipn o (if o mod 8 =? 0 then s1 else s2)).
Proof.
  intros Hlen Hmod.
  pose proof (Nat.div_mod_eq (length s1) 8) as Hd. rewrite Hmod in Hd.
  set (K := 2 * (length s1 / 8)).
  assert (HK : length s1 = 4 * K) by (unfold K; lia).
  exists (blocks s1 s2 K 0). split; [|split].
  - apply alternate_pixels_blocks; lia.
  - rewrite (blocks_length s1 s2 K); lia.
  - intros o Ho Hlt.
    pose proof (Nat.div_mod_eq o 4) as Ho'. rewrite Ho, Nat.add_0_r in Ho'.
    rewrite Ho'.
    rewrite (blocks_skipn s1 s2 K) by lia.
    replace (K - o / 4) with (S (K - o / 4 - 1)) by lia.
    rewrite (blocks_firstn s1 s2 K) by lia.
    reflexivity.
Qed.

(** C9: when the length of [v1] is a multiple of 4 and [v2] is at least as
    long, [alternate_pixels v1 v2] returns an output of length [v1.len()],
    and any [v2'] that agrees with [v2] on its first [v1.len()] bytes gives
    the same output: bytes of [v2] at indices [>= v1.len()] are never read. *)
Theorem alternate_pixels_ignores_tail (v1 v2 v2' : list byte) :
  length v1 mod 4 = 0 ->
  length v1 <= length v2 ->
  firstn (length v1) v2' = firstn (length v1) v2 ->
  exists out, alternate_pixels v1 v2 = Some out /\
    length out = length v1 /\
    alternate_pixels v1 v2' = Some out.
Proof.
  intros Hmod Hle Hpre.
  pose proof (Nat.div_mod_eq (length v1) 4) as Hd. rewrite Hmod in Hd.
  set (K := length v1 / 4).
  assert (HK : length v1 = 4 * K) by (unfold K; lia).
  assert (Hle' : length v1 <= length v2').
  { pose proof (f_equal (@length byte) Hpre) as Hl.
    rewrite !length_firstn in Hl. lia. }
  exists (blocks v1 v2 K 0). split; [|split].
  - apply alternate_pixels_blocks; lia.
  - rewrite (blocks_length v1 v2 K); lia.
  - rewrite (alternate_pixels_blocks v1 v2' K) by lia.
    f_equal. apply (blocks_prefix_only v1 v2 v2' (length v1)); auto; lia.
Qed.

(** C10: on two inputs of the same length, a multiple of 4, [alternate_pixels]
    never panics: every [vec.get(i)] in [set_rgba] and every [splice] range
    is in bounds, so the call returns a vector. *)
Theorem alternate_pixels_no_panic (v1 v2 : list byte) :
  length v1 = length v2 ->
  length v1 mod 4 = 0 ->
  alternate_pixels v1 v2 <> None.
Proof.
  intros Hlen Hmod.
  pose proof (Nat.div_mod_eq (length v1) 4) as Hd. rewrite Hmod in Hd.
  rewrite (alternate_pixels_blocks v1 v2 (length v1 / 4)) by lia.
  discriminate.
Qed.

(** ** Lemmas on the dimension reconciliation *)

Open Scope Z_scope.

Lemma dims_eqb_true (d1 d2 : Z * Z) : dims_eqb d1 d2 = true <-> d1 = d2.
Proof.
  destruct d1 as [a b], d2 as [c e]. unfold dims_eqb; simpl.
  rewrite andb_true_iff, !Z.eqb_eq. split.
  - intros [-> ->]; reflexivity.
  - intros H; injection H; auto.
Qed.

Lemma mul_u32_some (a b p : Z) : mul_u32 a b = Some p -> p = a * b /\ a * b <= u32_max.
Proof.
  unfold mul_u32. destruct (a * b <=? u32_max) eqn:E; intros H; [|discriminate].
  injection H as <-. apply Z.leb_le in E. auto.
Qed.

Lemma get_smallest_dimensions_cases (d1 d2 s : Z * Z) :
  get_smallest_dimensions d1 d2 = Some s ->
  (pixel_count d1 < pixel_count d2 /\ s = d1) \/
  (pixel_count d2 <= pixel_count d1 /\ s = d2).
Proof.
  unfold get_smallest_dimensions, pixel_count.
  destruct (mul_u32 (fst d1) (snd d1)) as [p1|] eqn:E1; [|discriminate].
  destruct (mul_u32 (fst d2) (snd d2)) as [p2|] eqn:E2; [|discriminate].
  apply mul_u32_some in E1 as [-> _]. apply mul_u32_some in E2 as [-> _].
  intros H; injection H as <-.
  destruct (fst d1 * snd d1 <? fst d2 * snd d2) eqn:E.
  - apply Z.ltb_lt in E. auto.
  - apply Z.ltb_ge in E. auto.
Qed.

(** ** Claims on [get_smallest_dimensions] and [standardize_size] *)

(** C2 (counterexample): two distinct images of equal dimensions are not
    both returned unchanged: the first goes through [resize_exact]. *)
Lemma standardize_size_equal_dims_resizes :
  let i1 := Decoded 2 2 [Byte.x01] in
  let i2 := Decoded 2 2 [Byte.x02] in
  dimensions i1 = dimensions i2 /\
  standardize_size i1 i2 = Some (ResizeExact i1 2 2 Triangle, i2) /\
  standardize_size i1 i2 <> Some (i1, i2).
Proof. simpl. repeat split; discriminate. Qed.

(** C2 (amended): for two images of the same dimensions [(w, h)] with
    [w * h] within [u32], [standardize_size] returns the second image
    unchanged and the first resized by [resize_exact] to its own
    dimensions [(w, h)] with the Triangle filter: one resize, on the first
    image. *)
Theorem standardize_size_equal_dims (i1 i2 : DynamicImage) (w h : Z) :
  dimensions i1 = (w, h) ->
  dimensions i2 = (w, h) ->
  w * h <= u32_max ->
  standardize_size i1 i2 = Some (ResizeExact i1 w h Triangle, i2).
Proof.
  intros H1 H2 Hb. unfold standardize_size, get_smallest_dimensions, mul_u32.
  rewrite H1, H2. simpl.
  destruct (w * h <=? u32_max) eqn:E; [|apply Z.leb_gt in E; lia].
  rewrite Z.ltb_irrefl.
  replace (dims_eqb (w, h) (w, h)) with true
    by (symmetry; now apply dims_eqb_true).
  reflexivity.
Qed.

(** C3 (counterexample): with [dim_1 = (65536, 65536)] and [dim_2 = (1, 1)]
    the first pixel count is not smaller, yet the call does not return
    [dim_2]: [65536 * 65536] overflows [u32] and panics. *)
Lemma get_smallest_dimensions_overflow :
  pixel_count (1, 1) <= pixel_count (65536, 65536) /\
  get_smallest_dimensions (65536, 65536) (1, 1) <> Some (1, 1).
Proof. split; [unfold pixel_count; simpl; lia | vm_compute; discriminate]. Qed.

(** C3 (amended): when both pixel counts fit in [u32],
    [get_smallest_dimensions] returns [dim_1] if its pixel count is
    strictly smaller and [dim_2] otherwise (ties included); when either
    pixel count exceeds [u32::MAX] the multiplication panics. *)
Theorem get_smallest_dimensions_spec (d1 d2 : Z * Z) :
  (pixel_count d1 <= u32_max -> pixel_count d2 <= u32_max ->
   pixel_count d1 < pixel_count d2 -> get_smallest_dimensions d1 d2 = Some d1) /\
  (pixel_count d1 <= u32_max -> pixel_count d2 <= u32_max ->
   pixel_count d2 <= pixel_count d1 -> get_smallest_dimensions d1 d2 = Some d2) /\
  (u32_max < pixel_count d1 \/ u32_max < pixel_count d2 ->
   get_smallest_dimensions d1 d2 = None).
Proof.
  unfold get_smallest_dimensions, mul_u32, pixel_count.
  split; [|split].
  - intros H1 H2 Hlt.
    apply Z.leb_le in H1, H2. apply Z.ltb_lt in Hlt. now rewrite H1, H2, Hlt.
  - intros H1 H2 Hge.
    apply Z.leb_le in H1, H2. apply Z.ltb_ge in Hge. now rewrite H1, H2, Hge.
  - intros [H|H].
    + apply Z.leb_gt in H. now rewrite H.
    + apply Z.leb_gt in H. rewrite H.
      now destruct (fst d1 * snd d1 <=? u32_max).
Qed.

(** C7: the two images that [standardize_size] returns both have the
    dimensions computed by [get_smallest_dimensions] from its inputs. *)
Theorem standardize_size_same_dimensions (i1 i2 o1 o2 : DynamicImage) :
  standardize_size i1 i2 = Some (o1, o2) ->
  exists s, get_smallest_dimensions (dimensions i1) (dimensions i2) = Some s /\
    dimensions o1 = s /\ dimensions o2 = s.
Proof.
  unfold standardize_size. intros Hstd.
  destruct (get_smallest_dimensions (dimensions i1) (dimensions i2))
    as [[w h]|] eqn:Hs; [|discriminate].
  exists (w, h). split; auto.
  destruct (dims_eqb (dimensions i2) (w, h)) eqn:Heq;
    injection Hstd as <- <-.
  - apply dims_eqb_true in Heq. auto.
  - split; auto.
    apply get_smallest_dimensions_cases in Hs as [[_ Hs]|[_ Hs]]; auto.
    rewrite <- Hs in Heq.
    assert (dims_eqb (w, h) (w, h) = true) by now apply dims_eqb_true.
    congruence.
Qed.

(** C8: [standardize_size] never upsamples: each returned image is either
    its input unchanged, or its input resized to a width and height whose
    pixel count is at most the input's own pixel count. *)
Theorem standardize_size_never_upsamples (i1 i2 o1 o2 : DynamicImage) :
  standardize_size i1 i2 = Some (o1, o2) ->
  (o1 = i1 \/ exists w h f, o1 = ResizeExact i1 w h f /\
     w * h <= pixel_count (dimensions i1)) /\
  (o2 = i2 \/ exists w h f, o2 = ResizeExact i2 w h f /\
     w * h <= pixel_count (dimensions i2)).
Proof.
  unfold standardize_size. intros Hstd.
  destruct (get_smallest_dimensions (dimensions i1) (dimensions i2))
    as [[w h]|] eqn:Hs; [|discriminate].
  apply get_smallest_dimensions_cases in Hs.
  destruct (dims_eqb (dimensions i2) (w, h)) eqn:Heq;
    injection Hstd as <- <-.
  - apply dims_eqb_true in Heq. split; [right | left; reflexivity].
    exists w, h, Triangle. split; auto.
    destruct Hs as [[Hlt Hd]|[Hge Hd]]; rewrite <- Hd in *; unfold pixel_count in *;
      simpl in *; lia.
  - split; [left; reflexivity | right].
    exists w, h, Triangle. split; auto.
    destruct Hs as [[Hlt Hd]|[_ Hd]].
    + rewrite <- Hd in *. unfold pixel_count in *. simpl in *. lia.
    + rewrite Hd in Heq.
      assert (dims_eqb (dimensions i2) (dimensions i2) = true)
        by now apply dims_eqb_true.
      congruence.
Qed.

Close Scope Z_scope.

(** ** Claims on [FloatingImage] *)

Open Scope Z_scope.

Lemma FloatingImage_new_eq (w h : Z) (name : String.string) :
  0 <= w -> 0 <= h ->
  FloatingImage_new w h name =
  if w * h * 4 <=? u32_max
  then Some (mkFloatingImage w h (vec_with_capacity (Z.to_nat (w * h * 4))) name)
  else None.
Proof.
  intros Hw Hh. unfold FloatingImage_new, mul_u32, u32_try_into_usize.
  replace (h * w) with (w * h) by ring.
  destruct (w * h <=? u32_max) eqn:E1.
  - destruct (w * h * 4 <=? u32_max) eqn:E2; auto.
    apply Z.leb_le in E2.
    replace (w * h * 4 <? 2 ^ usize_bits) with true; auto.
    symmetry. apply Z.ltb_lt. unfold u32_max, usize_bits in *. lia.
  - apply Z.leb_gt in E1.
    replace (w * h * 4 <=? u32_max) with false; auto.
    symmetry. apply Z.leb_gt. nia.
Qed.

(** C4: on a buffer made by [FloatingImage::new(width, height, name)],
    whose content is empty and whose capacity is [width * height * 4],
    [set_data(data)] succeeds and the buffer then holds exactly [data] when
    [data.len()] is at most that capacity, and fails with [BufferTooSmall]
    leaving the buffer as it was when [data.len()] is larger. *)
Theorem set_data_on_new_buffer (w h : Z) (name : String.string)
    (img : FloatingImage) (data : Vec) :
  FloatingImage_new w h name = Some img ->
  vec_items (fi_data img) = [] /\
  vec_capacity (fi_data img) = Z.to_nat (w * h * 4) /\
  ((length (vec_items data) <= Z.to_nat (w * h * 4))%nat ->
   set_data img data = (mkFloatingImage w h data name, Ok tt)) /\
  ((Z.to_nat (w * h * 4) < length (vec_items data))%nat ->
   set_data img data = (img, Err BufferTooSmall)).
Proof.
  unfold FloatingImage_new, mul_u32, u32_try_into_usize.
  destruct (h * w <=? u32_max); [|discriminate].
  destruct (h * w * 4 <=? u32_max); [|discriminate].
  destruct (h * w * 4 <? 2 ^ usize_bits); [|discriminate].
  intros H. injection H as <-.
  replace (h * w * 4) with (w * h * 4) by ring.
  unfold set_data; simpl. repeat split.
  - intros Hle. destruct (Z.to_nat (w * h * 4) <? length (vec_items data))%nat
      eqn:E; auto. apply Nat.ltb_lt in E. lia.
  - intros Hlt. destruct (Z.to_nat (w * h * 4) <? length (vec_items data))%nat
      eqn:E; auto. apply Nat.ltb_ge in E. lia.
Qed.

(** C5 (counterexample): on x86_64, [65536 * 65536 * 4] fits in [usize],
    yet [FloatingImage::new(65536, 65536, _)] panics: the product is
    computed in [u32]. *)
Lemma FloatingImage_new_u32_overflow :
  65536 * 65536 * 4 < 2 ^ usize_bits /\
  FloatingImage_new 65536 65536 "out"%string = None.
Proof. split; vm_compute; reflexivity. Qed.

(** C5 (amended): for [u32] arguments, [FloatingImage::new] fails (panics)
    exactly when [width * height * 4] exceeds [u32::MAX]; otherwise it
    returns a buffer with empty content and capacity exactly
    [width * height * 4]. *)
Theorem FloatingImage_new_spec (w h : Z) (name : String.string) :
  0 <= w <= u32_max -> 0 <= h <= u32_max ->
  (FloatingImage_new w h name = None <-> u32_max < w * h * 4) /\
  (w * h * 4 <= u32_max ->
   FloatingImage_new w h name =
   Some (mkFloatingImage w h (mkVec [] (Z.to_nat (w * h * 4))) name)).
Proof.
  intros Hw Hh. rewrite FloatingImage_new_eq by lia.
  destruct (w * h * 4 <=? u32_max) eqn:E.
  - apply Z.leb_le in E. split; [split; [discriminate | lia] | auto].
  - apply Z.leb_gt in E. split; [split; auto | lia].
Qed.

Close Scope Z_scope.

(** ** Claim on [main] *)

(** C6: when both inputs load and their detected formats differ, [main]
    returns [Err(DifferentImageFormats)] right after the two loads: the
    trace holds the two loads only, so neither [standardize_size] (the
    only place a resize happens) nor [combine_images] runs. *)
Theorem main_rejects_different_formats {Reader : Type}
    (Reader_open : String.string -> result Reader IoError)
    (reader_format : Reader -> option ImageFormat)
    (reader_decode : Reader -> result DynamicImage ImageError)
    (to_rgba8_into_vec : DynamicImage -> list byte)
    (save : String.string -> list byte -> Z -> Z -> ColorType -> ImageFormat ->
            result unit ImageError)
    (args : Args) (image_1 image_2 : DynamicImage) (f1 f2 : ImageFormat) :
  find_image_from_path Reader_open reader_format reader_decode (arg_image_1 args)
    = Ok (image_1, f1) ->
  find_image_from_path Reader_open reader_format reader_decode (arg_image_2 args)
    = Ok (image_2, f2) ->
  f1 <> f2 ->
  main Reader_open reader_format reader_decode to_rgba8_into_vec save args []
  = ([EvLoad (arg_image_1 args); EvLoad (arg_image_2 args)],
     Fail DifferentImageFormats) /\
  ~ In EvStandardize [EvLoad (arg_image_1 args); EvLoad (arg_image_2 args)] /\
  ~ In EvCombine [EvLoad (arg_image_1 args); EvLoad (arg_image_2 args)].
Proof.
  intros H1 H2 Hneq.
  split; [|simpl; intuition discriminate].
  unfold main, bind, emit, try_, ret, throw. rewrite H1, H2. simpl.
  destruct f1, f2; simpl; try reflexivity; congruence.
Qed.

(** ** Witnesses: each theorem applied at a concrete input *)

Open Scope Z_scope.

Lemma alternate_pixels_interleaves_witness :
  let s1 := repeat Byte.x01 8 in
  let s2 := repeat Byte.x02 8 in
  length s1 = length s2 /\ (length s1 mod 8 = 0)%nat /\
  exists out, alternate_pixels s1 s2 = Some out /\
    length out = length s1 /\
    forall o, (o mod 4 = 0)%nat -> (o < length s1)%nat ->
      firstn 4 (skipn o out)
      = firstn 4 (skipn o (if (o mod 8 =? 0)%nat then s1 else s2)).
Proof.
  simpl. split; [reflexivity | split; [reflexivity |]].
  apply alternate_pixels_interleaves; reflexivity.
Defined.

Lemma alternate_pixels_ignores_tail_witness :
  let v1 := [Byte.x01; Byte.x01; Byte.x01; Byte.x01;
             Byte.x11; Byte.x11; Byte.x11; Byte.x11] in
  let v2 := [Byte.x02; Byte.x02; Byte.x02; Byte.x02;
             Byte.x22; Byte.x22; Byte.x22; Byte.x22; Byte.x03] in
  let v2' := [Byte.x02; Byte.x02; Byte.x02; Byte.x02;
              Byte.x22; Byte.x22; Byte.x22; Byte.x22; Byte.x04; Byte.x05] in
  (length v1 mod 4 = 0)%nat /\ (length v1 <= length v2)%nat /\
  firstn (length v1) v2' = firstn (length v1) v2 /\
  exists out, alternate_pixels v1 v2 = Some out /\
    length out = length v1 /\ alternate_pixels v1 v2' = Some out.
Proof.
  simpl. split; [reflexivity | split; [lia | split; [reflexivity |]]].
  apply alternate_pixels_ignores_tail; simpl; (reflexivity || lia).
Defined.

Lemma alternate_pixels_no_panic_witness :
  let v1 := [Byte.x01; Byte.x01; Byte.x01; Byte.x01;
             Byte.x11; Byte.x11; Byte.x11; Byte.x11] in
  let v2 := [Byte.x02; Byte.x02; Byte.x02; Byte.x02;
             Byte.x22; Byte.x22; Byte.x22; Byte.x22] in
  length v1 = length v2 /\ (length v1 mod 4 = 0)%nat /\
  alternate_pixels v1 v2 <> None.
Proof.
  simpl. split; [reflexivity | split; [reflexivity |]].
  apply alternate_pixels_no_panic; reflexivity.
Defined.

Lemma standardize_size_equal_dims_witness :
  let i1 := Decoded 3 2 [Byte.x01] in
  let i2 := Decoded 3 2 [Byte.x02] in
  dimensions i1 = (3, 2) /\ dimensions i2 = (3, 2) /\ 3 * 2 <= u32_max /\
  standardize_size i1 i2 = Some (ResizeExact i1 3 2 Triangle, i2).
Proof.
  simpl. split; [reflexivity | split; [reflexivity | split; [vm_compute; discriminate |]]].
  apply standardize_size_equal_dims; [reflexivity | reflexivity | vm_compute; discriminate].
Defined.

Lemma get_smallest_dimensions_spec_witness :
  pixel_count (2, 3) < pixel_count (4, 4) /\
  get_smallest_dimensions (2, 3) (4, 4) = Some (2, 3) /\
  get_smallest_dimensions (4, 4) (2, 8) = Some (2, 8).
Proof.
  split; [unfold pixel_count; simpl; lia |].
  split.
  - apply (get_smallest_dimensions_spec (2, 3) (4, 4));
      unfold pixel_count, u32_max; simpl; lia.
  - apply (get_smallest_dimensions_spec (4, 4) (2, 8));
      unfold pixel_count, u32_max; simpl; lia.
Defined.

Lemma standardize_size_same_dimensions_witness :
  let i1 := Decoded 4 4 [] in
  let i2 := Decoded 2 2 [] in
  standardize_size i1 i2 = Some (ResizeExact i1 2 2 Triangle, i2) /\
  exists s, get_smallest_dimensions (dimensions i1) (dimensions i2) = Some s /\
    dimensions (ResizeExact i1 2 2 Triangle) = s /\ dimensions i2 = s.
Proof.
  intros i1 i2. split; [reflexivity |].
  apply standardize_size_same_dimensions. reflexivity.
Defined.

Lemma standardize_size_never_upsamples_witness :
  let i1 := Decoded 4 4 [] in
  let i2 := Decoded 2 3 [] in
  standardize_size i1 i2 = Some (ResizeExact i1 2 3 Triangle, i2) /\
  (ResizeExact i1 2 3 Triangle = i1 \/ exists w h f,
     ResizeExact i1 2 3 Triangle = ResizeExact i1 w h f /\
     w * h <= pixel_count (dimensions i1)) /\
  (i2 = i2 \/ exists w h f, i2 = ResizeExact i2 w h f /\
     w * h <= pixel_count (dimensions i2)).
Proof.
  intros i1 i2. split; [reflexivity |].
  apply standardize_size_never_upsamples. reflexivity.
Defined.

Lemma set_data_on_new_buffer_witness :
  let img := mkFloatingImage 1 1 (mkVec [] 4) "out" in
  let data := mkVec [Byte.x01; Byte.x02] 2 in
  FloatingImage_new 1 1 "out" = Some img /\
  vec_items (fi_data img) = [] /\
  vec_capacity (fi_data img) = Z.to_nat (1 * 1 * 4) /\
  ((length (vec_items data) <= Z.to_nat (1 * 1 * 4))%nat ->
   set_data img data = (mkFloatingImage 1 1 data "out", Ok tt)) /\
  ((Z.to_nat (1 * 1 * 4) < length (vec_items data))%nat ->
   set_data img data = (img, Err BufferTooSmall)).
Proof.
  intros img data. split; [vm_compute; reflexivity |].
  apply (set_data_on_new_buffer 1 1 "out" img data). vm_compute. reflexivity.
Defined.

Lemma FloatingImage_new_spec_witness :
  (0 <= 2 <= u32_max) /\ (0 <= 3 <= u32_max) /\
  (FloatingImage_new 2 3 "out" = None <-> u32_max < 2 * 3 * 4) /\
  (2 * 3 * 4 <= u32_max ->
   FloatingImage_new 2 3 "out" =
   Some (mkFloatingImage 2 3 (mkVec [] (Z.to_nat (2 * 3 * 4))) "out")).
Proof.
  split; [unfold u32_max; lia | split; [unfold u32_max; lia |]].
  apply FloatingImage_new_spec; unfold u32_max; lia.
Defined.

Close Scope Z_scope.

Lemma main_rejects_different_formats_witness :
  find_image_from_path example_open example_format example_decode "a.png"
    = Ok (Decoded 1 1 [Byte.x00; Byte.x00; Byte.x00; Byte.xff], Png) /\
  find_image_from_path example_open example_format example_decode "b.jpg"
    = Ok (Decoded 1 1 [Byte.x00; Byte.x00; Byte.x00; Byte.xff], Jpeg) /\
  main example_open example_format example_decode (fun _ => []) example_save
    example_args []
  = ([EvLoad "a.png"; EvLoad "b.jpg"], Fail DifferentImageFormats) /\
  ~ In EvStandardize [EvLoad "a.png"; EvLoad "b.jpg"] /\
  ~ In EvCombine [EvLoad "a.png"; EvLoad "b.jpg"].
Proof.
  split; [reflexivity | split; [reflexivity |]].
  apply (main_rejects_different_formats example_open example_format
           example_decode (fun _ => []) example_save example_args
           (Decoded 1 1 [Byte.x00; Byte.x00; Byte.x00; Byte.xff])
           (Decoded 1 1 [Byte.x00; Byte.x00; Byte.x00; Byte.xff]) Png Jpeg);
    [reflexivity | reflexivity | discriminate].
Defined.

(** * Further properties of the code *)

(** ** [set_rgba] *)

Lemma set_rgba_loop_out_of_bounds (vec : list byte) (idx : list nat) :
  forall acc, (exists i, In i idx /\ (length vec <= i)%nat) ->
  set_rgba_loop vec idx acc = None.
Proof.
  induction idx as [|i idx IH]; intros acc [j [Hin Hj]]; [destruct Hin|].
  simpl. destruct (nth_error vec i) as [d|] eqn:Hd; auto.
  destruct Hin as [<-|Hin].
  - apply nth_error_None in Hj. congruence.
  - apply IH. eauto.
Qed.

Lemma set_rgba_loop_length (vec : list byte) (idx : list nat) :
  forall acc r, set_rgba_loop vec idx acc = Some r ->
  length r = (length acc + length idx)%nat.
Proof.
  induction idx as [|i idx IH]; intros acc r H; simpl in *.
  - injection H as <-. lia.
  - destruct (nth_error vec i); [|discriminate].
    apply IH in H. rewrite length_app in H. simpl in H. lia.
Qed.

(** [set_rgba(vec, start, end)] returns [vec[start..=end]] when [end] is a
    valid index of [vec], and panics when the range is non-empty and [end]
    is out of bounds. *)
Theorem set_rgba_bounds (vec : list byte) (start end_ : nat) :
  ((end_ < length vec)%nat ->
   set_rgba vec start end_ = Some (firstn (S end_ - start) (skipn start vec))) /\
  ((start <= end_)%nat -> (length vec <= end_)%nat ->
   set_rgba vec start end_ = None).
Proof.
  unfold set_rgba. split.
  - intros Hlt. destruct (Nat.le_gt_cases start (S end_)).
    + rewrite set_rgba_loop_in_bounds by lia. reflexivity.
    + replace (S end_ - start)%nat with 0%nat by lia. reflexivity.
  - intros Hse Hlen. apply set_rgba_loop_out_of_bounds.
    exists end_. split; auto. apply in_seq. lia.
Qed.

(** ** [alternate_pixels]: edge cases *)

Lemma firstn_add_split (l : list byte) (a b : nat) :
  firstn (a + b) l = firstn a l ++ firstn b (skipn a l).
Proof.
  revert l; induction a as [|a IH]; intros [|x l]; simpl; auto.
  - now rewrite firstn_nil.
  - now rewrite IH.
Qed.

Lemma blocks_self (v : list byte) (k : nat) :
  forall j, blocks v v k j = firstn (4 * k) (skipn j v).
Proof.
  induction k as [|k IH]; intros j; simpl blocks; [reflexivity|].
  rewrite IH. unfold block, pixel_source.
  replace (if j mod 8 =? 0 then v else v) with v by (now destruct (j mod 8 =? 0)).
  replace (4 * S k) with (4 + 4 * k) by lia.
  rewrite firstn_add_split, skipn_skipn.
  do 3 f_equal. lia.
Qed.

(** Interleaving a buffer whose length is a multiple of 4 with itself
    returns the buffer unchanged. *)
Theorem alternate_pixels_self (v : list byte) :
  length v mod 4 = 0 -> alternate_pixels v v = Some v.
Proof.
  intros Hmod.
  pose proof (Nat.div_mod_eq (length v) 4) as Hd. rewrite Hmod in Hd.
  rewrite (alternate_pixels_blocks v v (length v / 4)) by lia.
  rewrite blocks_self. simpl skipn. rewrite firstn_all2 by lia. reflexivity.
Qed.

Lemma alternate_loop_partial_pixel (v1 v2 : list byte) (n : nat) (fuel : nat) :
  length v1 = n -> n mod 4 <> 0 ->
  forall m c, length c = n -> (4 * m <= n)%nat -> (n <= 4 * m + 4 * fuel)%nat ->
  alternate_loop v1 v2 fuel (4 * m) c = None.
Proof.
  intros Hn Hmod. induction fuel as [|fuel IH]; intros m c Hc Hm Hf.
  - exfalso. assert (E : 4 * m = n) by lia.
    rewrite <- E, Nat.mul_comm, Nat.Div0.mod_mul in Hmod. auto.
  - assert (Hlt : (4 * m < n)%nat).
    { destruct (Nat.eq_dec (4 * m) n) as [E|E]; [|lia].
      rewrite <- E, Nat.mul_comm, Nat.Div0.mod_mul in Hmod. congruence. }
    rewrite alternate_loop_S.
    replace (4 * m <? length v1) with true by (symmetry; apply Nat.ltb_lt; lia).
    destruct (set_rgba (pixel_source v1 v2 (4 * m)) (4 * m) (4 * m + 3))
      as [rgba|] eqn:Hr; auto.
    assert (Hrl : length rgba = 4).
    { unfold set_rgba in Hr. apply set_rgba_loop_length in Hr.
      rewrite length_seq in Hr. change (length (@nil byte)) with 0 in Hr. lia. }
    unfold splice.
    destruct (4 * m + 4 <=? n) eqn:Hfit.
    + apply Nat.leb_le in Hfit.
      replace (S (4 * m + 3)) with (4 * m + 4) by lia.
      rewrite Hc. replace (4 * m <=? 4 * m + 4) with true
        by (symmetry; apply Nat.leb_le; lia).
      replace (4 * m + 4 <=? n) with true by (symmetry; apply Nat.leb_le; lia).
      simpl andb. cbv iota.
      replace (4 * m + 4) with (4 * S m) by lia.
      apply IH.
      * rewrite !length_app, length_firstn, length_skipn, Hrl. lia.
      * assert (4 * S m <> n).
        { intros E. rewrite <- E, Nat.mul_comm, Nat.Div0.mod_mul in Hmod. auto. }
        lia.
      * lia.
    + apply Nat.leb_gt in Hfit.
      replace (S (4 * m + 3) <=? length c) with false
        by (symmetry; apply Nat.leb_gt; lia).
      now rewrite andb_false_r.
Qed.

(** When the first buffer's length is not a multiple of 4, [alternate_pixels]
    always panics: the last, partial pixel cannot be read or spliced. *)
Theorem alternate_pixels_partial_pixel_panics (v1 v2 : list byte) :
  length v1 mod 4 <> 0 -> alternate_pixels v1 v2 = None.
Proof.
  intros Hmod. unfold alternate_pixels.
  change 0%nat with (4 * 0)%nat.
  apply (alternate_loop_partial_pixel v1 v2 (length v1)); auto.
  - apply repeat_length.
  - lia.
  - lia.
Qed.

(** ** [get_smallest_dimensions] and [standardize_size] *)

Open Scope Z_scope.

(** [get_smallest_dimensions] returns one of its two arguments, and the one
    it returns has the smaller pixel count (at most that of either). *)
Theorem get_smallest_dimensions_minimal (d1 d2 s : Z * Z) :
  get_smallest_dimensions d1 d2 = Some s ->
  (s = d1 \/ s = d2) /\
  pixel_count s <= pixel_count d1 /\ pixel_count s <= pixel_count d2.
Proof.
  intros H. apply get_smallest_dimensions_cases in H as [[Hlt ->]|[Hge ->]];
    repeat split; auto; lia.
Qed.

(** When both pixel counts fit in [u32], [standardize_size] keeps the image
    with strictly fewer pixels and resizes the other one to its exact width
    and height; on a tie, or when the second has fewer pixels, it keeps the
    second and resizes the first to the second's dimensions. *)
Theorem standardize_size_resizes_other (i1 i2 : DynamicImage) :
  pixel_count (dimensions i1) <= u32_max ->
  pixel_count (dimensions i2) <= u32_max ->
  (pixel_count (dimensions i1) < pixel_count (dimensions i2) ->
   standardize_size i1 i2 =
   Some (i1, ResizeExact i2 (img_width i1) (img_height i1) Triangle)) /\
  (pixel_count (dimensions i2) <= pixel_count (dimensions i1) ->
   standardize_size i1 i2 =
   Some (ResizeExact i1 (img_width i2) (img_height i2) Triangle, i2)).
Proof.
  unfold standardize_size, get_smallest_dimensions, mul_u32, pixel_count,
    img_width, img_height.
  intros H1 H2. apply Z.leb_le in H1, H2. rewrite H1, H2.
  destruct (dimensions i1) as [w1 h1] eqn:E1, (dimensions i2) as [w2 h2] eqn:E2.
  simpl in *. split; intros Hc.
  - replace (w1 * h1 <? w2 * h2) with true by (symmetry; now apply Z.ltb_lt).
    destruct (dims_eqb (w2, h2) (w1, h1)) eqn:Eq; auto.
    apply dims_eqb_true in Eq. injection Eq as -> ->. lia.
  - replace (w1 * h1 <? w2 * h2) with false by (symmetry; now apply Z.ltb_ge).
    replace (dims_eqb (w2, h2) (w2, h2)) with true
      by (symmetry; now apply dims_eqb_true).
    reflexivity.
Qed.

Lemma standardize_size_result_dims (i1 i2 o1 o2 : DynamicImage) :
  standardize_size i1 i2 = Some (o1, o2) -> dimensions o2 = dimensions o1.
Proof.
  unfold standardize_size. intros Hstd.
  destruct (get_smallest_dimensions (dimensions i1) (dimensions i2))
    as [[w h]|] eqn:Hs; [|discriminate].
  destruct (dims_eqb (dimensions i2) (w, h)) eqn:Heq;
    injection Hstd as <- <-.
  - apply dims_eqb_true in Heq. auto.
  - apply get_smallest_dimensions_cases in Hs as [[_ Hs]|[_ Hs]]; simpl; auto.
    rewrite <- Hs in Heq.
    assert (dims_eqb (w, h) (w, h) = true) by now apply dims_eqb_true.
    congruence.
Qed.

Lemma ImageFormat_eqb_refl (f : ImageFormat) : ImageFormat_eqb f f = true.
Proof. now destruct f. Qed.

Close Scope Z_scope.

(** ** [main] *)

Section MainRuns.
Context {Reader : Type}.
Variable Reader_open : String.string -> result Reader IoError.
Variable reader_format : Reader -> option ImageFormat.
Variable reader_decode : Reader -> result DynamicImage ImageError.
Variable to_rgba8_into_vec : DynamicImage -> list byte.
Variable save :
  String.string -> list byte -> Z -> Z -> ColorType -> ImageFormat ->
  result unit ImageError.

Let find := find_image_from_path Reader_open reader_format reader_decode.
Let run := main Reader_open reader_format reader_decode to_rgba8_into_vec save.

(** A failed load ends [main] with that load's error: when the first path
    fails, the second is never loaded. *)
Theorem main_load_errors (args : Args) :
  (forall e, find (arg_image_1 args) = Err e ->
   run args [] = ([EvLoad (arg_image_1 args)], Fail e)) /\
  (forall r1 e, find (arg_image_1 args) = Ok r1 ->
   find (arg_image_2 args) = Err e ->
   run args [] = ([EvLoad (arg_image_1 args); EvLoad (arg_image_2 args)], Fail e)).
Proof.
  unfold run, find. split.
  - intros e H. unfold main, bind, emit, try_, throw. now rewrite H.
  - intros [img f] e H1 H2. unfold main, bind, emit, try_, ret, throw.
    now rewrite H1, H2.
Qed.

(** When both inputs load with the same format, [standardize_size] succeeds
    and [to_rgba8] yields [width * height * 4] bytes per image (the [image]
    crate's contract), [main] runs every step once, in order, and its result
    is that of saving the interleaved bytes at the reconciled width and
    height in the inputs' format: [set_data] never reports [BufferTooSmall]
    there, as long as [width * height * 4] fits in [u32]. *)
Theorem main_success_path (args : Args) (image_1 image_2 o1 o2 : DynamicImage)
    (f : ImageFormat) :
  find (arg_image_1 args) = Ok (image_1, f) ->
  find (arg_image_2 args) = Ok (image_2, f) ->
  standardize_size image_1 image_2 = Some (o1, o2) ->
  (forall img, length (to_rgba8_into_vec img)
               = Z.to_nat (img_width img * img_height img * 4)) ->
  (0 <= img_width o1)%Z -> (0 <= img_height o1)%Z ->
  (img_width o1 * img_height o1 * 4 <= u32_max)%Z ->
  exists out,
    alternate_pixels (to_rgba8_into_vec o1) (to_rgba8_into_vec o2) = Some out /\
    run args [] =
    ([EvLoad (arg_image_1 args); EvLoad (arg_image_2 args); EvStandardize;
      EvNewBuffer; EvCombine; EvSetData; EvSave],
     match save (arg_output args) out (img_width o1) (img_height o1) Rgba8 f with
     | Ok _ => Done tt
     | Err e => Fail (UnableToSaveImage e)
     end).
Proof.
  unfold run, find. intros H1 H2 Hstd Hrgba Hw Hh Hfit.
  pose proof (standardize_size_result_dims _ _ _ _ Hstd) as Hd.
  set (K := Z.to_nat (img_width o1 * img_height o1)).
  assert (HK : Z.to_nat (img_width o1 * img_height o1 * 4) = (4 * K)%nat).
  { unfold K. rewrite Z2Nat.inj_mul by lia. simpl. lia. }
  assert (L1 : length (to_rgba8_into_vec o1) = (4 * K)%nat) by (rewrite Hrgba; auto).
  assert (L2 : length (to_rgba8_into_vec o2) = (4 * K)%nat).
  { rewrite Hrgba. unfold img_width, img_height in *. rewrite Hd. auto. }
  exists (blocks (to_rgba8_into_vec o1) (to_rgba8_into_vec o2) K 0).
  split; [apply alternate_pixels_blocks; lia|].
  unfold main, bind, emit, try_, ret, throw, or_panic, combine_images.
  rewrite H1, H2, ImageFormat_eqb_refl, Hstd. simpl negb. cbv iota beta.
  rewrite FloatingImage_new_eq by lia.
  replace (img_width o1 * img_height o1 * 4 <=? u32_max)%Z with true
    by (symmetry; now apply Z.leb_le).
  rewrite (alternate_pixels_blocks _ _ K) by lia.
  unfold set_data, vec_with_capacity. simpl fi_data. simpl vec_capacity.
  cbn [negb vec_capacity fi_data vec_items fi_width fi_height fi_name].
  rewrite HK, (blocks_length _ _ K) by lia.
  rewrite Nat.ltb_irrefl. cbn.
  destruct (save (arg_output args)
              (blocks (to_rgba8_into_vec o1) (to_rgba8_into_vec o2) K 0)
              (img_width o1) (img_height o1) Rgba8 f); reflexivity.
Qed.

(** When both inputs load with the same format but the reconciled
    [width * height * 4] exceeds [u32::MAX], [main] panics in
    [FloatingImage::new]: the images are never interleaved and nothing is
    saved. *)
Theorem main_output_buffer_overflow_panics (args : Args)
    (image_1 image_2 o1 o2 : DynamicImage) (f : ImageFormat) :
  find (arg_image_1 args) = Ok (image_1, f) ->
  find (arg_image_2 args) = Ok (image_2, f) ->
  standardize_size image_1 image_2 = Some (o1, o2) ->
  (0 <= img_width o1)%Z -> (0 <= img_height o1)%Z ->
  (u32_max < img_width o1 * img_height o1 * 4)%Z ->
  run args [] =
  ([EvLoad (arg_image_1 args); EvLoad (arg_image_2 args); EvStandardize;
    EvNewBuffer], Panic).
Proof.
  unfold run, find. intros H1 H2 Hstd Hw Hh Hbig.
  unfold main, bind, emit, try_, ret, throw, or_panic.
  rewrite H1, H2, ImageFormat_eqb_refl, Hstd.
  rewrite FloatingImage_new_eq by lia.
  replace (img_width o1 * img_height o1 * 4 <=? u32_max)%Z with false
    by (symmetry; now apply Z.leb_gt).
  reflexivity.
Qed.

End MainRuns.

(** ** Witnesses of the further properties *)

Lemma set_rgba_bounds_witness :
  set_rgba [Byte.x01; Byte.x02; Byte.x03] 1 2 = Some [Byte.x02; Byte.x03] /\
  set_rgba [Byte.x01; Byte.x02; Byte.x03] 1 3 = None.
Proof.
  split.
  - apply (set_rgba_bounds [Byte.x01; Byte.x02; Byte.x03] 1 2). simpl. lia.
  - apply (set_rgba_bounds [Byte.x01; Byte.x02; Byte.x03] 1 3); simpl; lia.
Defined.

Lemma alternate_pixels_self_witness :
  alternate_pixels [Byte.x01; Byte.x02; Byte.x03; Byte.x04;
                    Byte.x05; Byte.x06; Byte.x07; Byte.x08]
                   [Byte.x01; Byte.x02; Byte.x03; Byte.x04;
                    Byte.x05; Byte.x06; Byte.x07; Byte.x08]
  = Some [Byte.x01; Byte.x02; Byte.x03; Byte.x04;
          Byte.x05; Byte.x06; Byte.x07; Byte.x08].
Proof. apply alternate_pixels_self. reflexivity. Defined.

Lemma alternate_pixels_partial_pixel_panics_witness :
  alternate_pixels [Byte.x01; Byte.x02; Byte.x03; Byte.x04; Byte.x05]
                   [Byte.x01; Byte.x02; Byte.x03; Byte.x04; Byte.x05; Byte.x06;
                    Byte.x07; Byte.x08] = None.
Proof. apply alternate_pixels_partial_pixel_panics. simpl. discriminate. Defined.

Open Scope Z_scope.

Lemma get_smallest_dimensions_minimal_witness :
  ((3, 2) = (4, 4) \/ (3, 2) = (3, 2)) /\
  pixel_count (3, 2) <= pixel_count (4, 4) /\ pixel_count (3, 2) <= pixel_count (3, 2).
Proof. apply (get_smallest_dimensions_minimal (4, 4) (3, 2)). reflexivity. Defined.

Lemma standardize_size_resizes_other_witness :
  standardize_size (Decoded 2 3 []) (Decoded 4 4 [])
  = Some (Decoded 2 3 [], ResizeExact (Decoded 4 4 []) 2 3 Triangle) /\
  standardize_size (Decoded 4 4 []) (Decoded 3 2 [])
  = Some (ResizeExact (Decoded 4 4 []) 3 2 Triangle, Decoded 3 2 []).
Proof.
  split.
  - apply (standardize_size_resizes_other (Decoded 2 3 []) (Decoded 4 4 []));
      unfold pixel_count, u32_max; simpl; lia.
  - apply (standardize_size_resizes_other (Decoded 4 4 []) (Decoded 3 2 []));
      unfold pixel_count, u32_max; simpl; lia.
Defined.

Close Scope Z_scope.

Lemma main_load_errors_witness :
  main example_open_checked example_format example_decode example_to_rgba8
    example_save (mkArgs "missing.png" "b.png" "out.png") []
  = ([EvLoad "missing.png"], Fail (UnableToReadImageFromPath (mkIoError "not found"))) /\
  main example_open_checked example_format example_decode example_to_rgba8
    example_save (mkArgs "a.png" "missing.png" "out.png") []
  = ([EvLoad "a.png"; EvLoad "missing.png"],
     Fail (UnableToReadImageFromPath (mkIoError "not found"))).
Proof.
  split.
  - apply (proj1 (main_load_errors example_open_checked example_format
             example_decode example_to_rgba8 example_save
             (mkArgs "missing.png" "b.png" "out.png"))).
    reflexivity.
  - apply (proj2 (main_load_errors example_open_checked example_format
             example_decode example_to_rgba8 example_save
             (mkArgs "a.png" "missing.png" "out.png"))
             (Decoded 1 1 [Byte.x00; Byte.x00; Byte.x00; Byte.xff], Png));
      reflexivity.
Defined.

Lemma main_success_path_witness :
  let i := Decoded 1 1 [Byte.x00; Byte.x00; Byte.x00; Byte.xff] in
  exists out,
    alternate_pixels (example_to_rgba8 (ResizeExact i 1 1 Triangle))
      (example_to_rgba8 i) = Some out /\
    main example_open example_format example_decode example_to_rgba8
      example_save (mkArgs "a.png" "a.png" "out.png") [] =
    ([EvLoad "a.png"; EvLoad "a.png"; EvStandardize;
      EvNewBuffer; EvCombine; EvSetData; EvSave],
     match example_save "out.png" out 1 1 Rgba8 Png with
     | Ok _ => Done tt
     | Err e => Fail (UnableToSaveImage e)
     end).
Proof.
  intros i.
  apply (main_success_path example_open example_format example_decode
           example_to_rgba8 example_save (mkArgs "a.png" "a.png" "out.png")
           i i (ResizeExact i 1 1 Triangle) i Png);
    try reflexivity.
  - intros img. apply repeat_length.
  - vm_compute. discriminate.
  - vm_compute. discriminate.
  - vm_compute. discriminate.
Defined.

Lemma main_output_buffer_overflow_panics_witness :
  main example_open example_format example_decode_large example_to_rgba8
    example_save (mkArgs "a.png" "a.png" "out.png") [] =
  ([EvLoad "a.png"; EvLoad "a.png"; EvStandardize; EvNewBuffer], Panic).
Proof.
  apply (main_output_buffer_overflow_panics example_open example_format
           example_decode_large example_to_rgba8 example_save
           (mkArgs "a.png" "a.png" "out.png")
           (Decoded 65536 16384 []) (Decoded 65536 16384 [])
           (ResizeExact (Decoded 65536 16384 []) 65536 16384 Triangle)
           (Decoded 65536 16384 []) Png);
    try reflexivity; vm_compute; try discriminate; reflexivity.
Defined.
